(** * memlayout / alloy: layout descriptors and their overflow-aware arithmetic

    A shallow embedding of [alloy/utils.hpp] (namespace [alloy::details],
    the same text as [memlayout::detail]) and of the [Layout] class that the
    [alloy] and [memlayout] headers share, followed by what the code
    computes and by the documented properties evaluated on it.

    Conventions.
    - [size_t] is the 64-bit unsigned type of an LP64 platform
      ([sizeof(size_t) = 8]); a value is a [Z] in [0, 2^64) and every
      arithmetic operation of the source is followed by its wrap-around,
      written out with [wrap].
    - [std::optional<T>] is [option T].
    - [std::optional<T>::value()] on an empty optional raises
      [std::bad_optional_access]; inside a [noexcept] function that ends the
      program.  Operations that unwrap return an [outcome]. *)

From Stdlib Require Import ZArith Bool Lia Zbitwise.

Local Open Scope Z_scope.

(** ** The platform size type *)

Module SizeT.

(** [sizeof(size_t)], in bytes. *)
Definition sizeof : Z := 8.

(** Number of value bits, [sizeof(size_t) * 8]. *)
Definition bits : Z := sizeof * 8.

Definition modulus : Z := 2 ^ bits.

(** [std::numeric_limits<size_t>::max()]. *)
Definition MAX_SIZE : Z := modulus - 1.

(** Reduction of a mathematical integer to its [size_t] representative. *)
Definition wrap (z : Z) : Z := z mod modulus.

Definition in_range (z : Z) : Prop := 0 <= z <= MAX_SIZE.

(** The operators of the source on [size_t] operands. *)
Definition add (x y : Z) : Z := wrap (x + y).
Definition sub (x y : Z) : Z := wrap (x - y).
Definition mul (x y : Z) : Z := wrap (x * y).
Definition shr (x n : Z) : Z := Z.shiftr x n.
Definition shl (x n : Z) : Z := wrap (Z.shiftl x n).
Definition band (x y : Z) : Z := Z.land x y.
Definition bor (x y : Z) : Z := Z.lor x y.
(** [~x] *)
Definition bnot (x : Z) : Z := wrap (Z.lnot x).
(** [!x], promoted back to [size_t] by the surrounding [&]. *)
Definition lnot (x : Z) : Z := if x =? 0 then 1 else 0.
(** [a % n] for [n <> 0]. *)
Definition rem (x n : Z) : Z := x mod n.

End SizeT.

(** ** Contextual conversion to [bool]

    [if (e)] converts [e] contextually to [bool]: an integer is true when it
    is not zero, a [std::optional] is true when it holds a value. *)

Class ContextualBool (A : Type) : Type := to_bool : A -> bool.

#[global] Instance size_t_ContextualBool : ContextualBool Z :=
  fun z => negb (z =? 0).

#[global] Instance optional_ContextualBool {A : Type} : ContextualBool (option A) :=
  fun o => match o with Some _ => true | None => false end.

#[global] Instance bool_ContextualBool : ContextualBool bool :=
  fun b => b.

(** ** [namespace alloy::details] *)

Module details.
Import SizeT.

Definition is_power_of_two (n : Z) : bool :=
  if n =? 0 then false
  else band n (sub n 1) =? 0.

(** [bit_clear_range<size_t>(value, offset, n)] *)
Definition bit_clear_range (value offset n : Z) : Z :=
  let cap := MAX_SIZE in
  let mask := shr cap (bits - n) in
  band value (bnot (shl mask offset)).

(** [bit_set_range<size_t>(value, offset, n)] *)
Definition bit_set_range (value offset n : Z) : Z :=
  let cap := MAX_SIZE in
  let mask := shr cap (bits - n) in
  bor value (shl mask offset).

(** [wrap_op(op, n, x, y)]: [op(x, y) % n]. *)
Definition wrap_op (op : Z -> Z -> Z) (n x y : Z) : Z :=
  rem (op x y) n.

Definition wrap_add (x y : Z) : Z :=
  let n := sizeof in
  wrap_op (fun x y => add x y) n x y.

Definition wrap_sub (x y : Z) : Z :=
  let n := sizeof in
  wrap_op (fun x y => sub x y) n x y.

(** [checked_op(op, check, x, y)]: the result of [check] is used as the
    condition of an [if]. *)
Definition checked_op {C : Type} `{ContextualBool C}
    (op : Z -> Z -> Z) (check : Z -> Z -> Z -> C) (x y : Z) : option Z :=
  let raw_result := op x y in
  if to_bool (check raw_result x y) then None
  else Some raw_result.

Definition checked_add (x y : Z) : option Z :=
  checked_op (fun x y => add x y)
             (fun res x y =>
                if res <? bor x y then @None Z else Some res)
             x y.

Definition checked_mul (x y : Z) : option Z :=
  checked_op (fun x y => mul x y)
             (fun res x y =>
                let sz := sizeof in
                let half := sz / 2 in
                let a := mul (shr x half) (bit_clear_range y 0 half) in
                let b := mul (bit_clear_range x 0 half) (shr y half) in
                add (add (mul (shr x half) (shr y half)) (shr a half))
                    (shr b half))
             x y.

End details.

(** ** Unwrapping an optional

    [o.value()] returns the held value, or raises [std::bad_optional_access]
    when [o] is empty. *)

Inductive outcome (A : Type) : Type :=
| Returned (a : A)
| BadOptionalAccess.

Arguments Returned {A} a.
Arguments BadOptionalAccess {A}.

Definition value {A : Type} (o : option A) : outcome A :=
  match o with
  | Some a => Returned a
  | None => BadOptionalAccess
  end.


(** ** [class Layout] *)

Module Layout.
Import SizeT details.

(** The two data members; [mk] is the private constructor
    [Layout(size_t size, size_t align)]. *)
Record t : Type := mk { size_ : Z; align_ : Z }.

Definition size (self : t) : Z := size_ self.
Definition align (self : t) : Z := align_ self.

(** Private static member. *)
Definition from_size_align (size align : Z) : option t :=
  if negb (align =? 0) && is_power_of_two align then None
  else if size >? sub MAX_SIZE (sub align 1) then None
  else Some (mk size align).

(** The public default constructor [Layout()]. *)
Definition default : t := mk 0 0.

(** [create<T>()], with [T] given by [size_align<T>()], the pair
    [(sizeof(T), alignof(T))]. *)
Definition create (size_align_T : Z * Z) : option t :=
  let '(size, align) := size_align_T in
  from_size_align size align.

Definition align_to (self : t) (align : Z) : option t :=
  from_size_align (size self) (Z.max (Layout.align self) align).

Definition required_padding (self : t) (align : Z) : Z :=
  let size := size self in
  let rounded_up_size :=
    band (wrap_sub (wrap_add size align) 1) (lnot (wrap_sub align 1)) in
  wrap_sub rounded_up_size size.

Definition pad_to_align (self : t) : outcome t :=
  let new_size := add (required_padding self (align self)) (size self) in
  value (from_size_align new_size (align self)).

Definition repeat (self : t) (n : Z) : outcome (option (t * Z)) :=
  let padded_size := add (size self) (required_padding self (align self)) in
  match checked_mul padded_size n with
  | Some allocate_size =>
      match value (from_size_align allocate_size (align self)) with
      | Returned layout => Returned (Some (layout, padded_size))
      | BadOptionalAccess => BadOptionalAccess
      end
  | None => Returned None
  end.

Definition repeat_packed (self : t) (n : Z) : option t :=
  match checked_mul (size self) n with
  | Some sz =>
      match from_size_align sz (align self) with
      | Some layout => Some layout
      | None => None
      end
  | None => None
  end.

Definition extend (self after : t) : option (t * Z) :=
  let new_align := Z.max (align self) (align after) in
  let padding := required_padding self new_align in
  match checked_add (size self) padding with
  | Some offset =>
      match checked_add offset (size after) with
      | Some new_size =>
          match from_size_align new_size new_align with
          | Some layout => Some (layout, offset)
          | None => None
          end
      | None => None
      end
  | None => None
  end.

Definition extend_packed (self after : t) : option t :=
  match checked_add (size self) (size after) with
  | Some new_size => from_size_align new_size (align self)
  | None => None
  end.

(** [array<T>(n)] is a member template that no translation unit
    instantiates; it is not embedded. *)

End Layout.

(** ** The documented contract, in the words of the specification *)

Module Contract.
Import SizeT.

(** A power of two, as a mathematical integer. *)
Definition is_pow2 (n : Z) : Prop := exists k, 0 <= k /\ n = 2 ^ k.

(** The invariants of a well-formed [Layout]: both fields are [size_t]
    values, [align > 0], [align] is a power of two and
    [size <= MAX_SIZE - (align - 1)]. *)
Definition invariants (l : Layout.t) : Prop :=
  in_range (Layout.size l) /\ in_range (Layout.align l) /\
  0 < Layout.align l /\ is_pow2 (Layout.align l) /\
  Layout.size l <= MAX_SIZE - (Layout.align l - 1).

(** Overflow-checked addition and multiplication as documented: the exact
    result when it fits, nothing otherwise. *)
Definition checked_add (x y : Z) : option Z :=
  if x + y <=? MAX_SIZE then Some (x + y) else None.

Definition checked_mul (x y : Z) : option Z :=
  if x * y <=? MAX_SIZE then Some (x * y) else None.

(** Validated construction as documented. *)
Definition from_size_align (size align : Z) : option Layout.t :=
  if (align =? 0) || negb (details.is_power_of_two align) then None
  else if size >? MAX_SIZE - (align - 1) then None
  else Some (Layout.mk size align).

(** [p] is the least non-negative padding that brings [size] to a
    multiple of [align]. *)
Definition is_min_padding (size align p : Z) : Prop :=
  0 <= p /\ (size + p) mod align = 0 /\
  forall q, 0 <= q -> (size + q) mod align = 0 -> p <= q.

End Contract.

(** ** Layouts a caller can obtain

    The constructor taking a size and an alignment and [from_size_align] are
    private: a caller starts from [Layout()] or [create<T>()] and applies the
    public member functions. *)

Inductive obtainable : Layout.t -> Prop :=
| ob_default :
    obtainable Layout.default
| ob_create (size_align_T : Z * Z) (l : Layout.t) :
    Layout.create size_align_T = Some l -> obtainable l
| ob_align_to (self : Layout.t) (align : Z) (l : Layout.t) :
    obtainable self ->
    Layout.align_to self align = Some l -> obtainable l
| ob_pad_to_align (self l : Layout.t) :
    obtainable self ->
    Layout.pad_to_align self = Returned l -> obtainable l
| ob_repeat (self : Layout.t) (n : Z) (l : Layout.t) (stride : Z) :
    obtainable self ->
    Layout.repeat self n = Returned (Some (l, stride)) -> obtainable l
| ob_repeat_packed (self : Layout.t) (n : Z) (l : Layout.t) :
    obtainable self ->
    Layout.repeat_packed self n = Some l -> obtainable l
| ob_extend (self after l : Layout.t) (offset : Z) :
    obtainable self -> obtainable after ->
    Layout.extend self after = Some (l, offset) -> obtainable l
| ob_extend_packed (self after l : Layout.t) :
    obtainable self -> obtainable after ->
    Layout.extend_packed self after = Some l -> obtainable l.

(** ** Wrappers that pair a value with its layout *)

(** A [T *]: the null pointer or a pointer to a value. *)
Inductive pointer (T : Type) : Type :=
| nullptr
| pointer_to (v : T).

Arguments nullptr {T}.
Arguments pointer_to {T} v.

(** [HasLayout<T>] of the pointer-holding headers; [T] is described by
    [size_align<T>()]. *)
Module HasLayout.

Record t (T : Type) : Type := mk { value_ : pointer T; layout_ : Layout.t }.

Arguments mk {T} value_ layout_.
Arguments value_ {T} _.
Arguments layout_ {T} _.

(** The private constructor [HasLayout(T *value)]: the layout member is
    initialised with [Layout::create<T>().value()]. *)
Definition construct {T : Type} (size_align_T : Z * Z) (val : pointer T)
    : outcome (t T) :=
  match value (Layout.create size_align_T) with
  | Returned layout => Returned (mk val layout)
  | BadOptionalAccess => BadOptionalAccess
  end.

Definition create {T : Type} (size_align_T : Z * Z) (val : pointer T)
    : outcome (option (t T)) :=
  match val with
  | nullptr => Returned None
  | pointer_to _ =>
      match construct size_align_T val with
      | Returned h => Returned (Some h)
      | BadOptionalAccess => BadOptionalAccess
      end
  end.

Definition ptr {T : Type} (self : t T) : pointer T := value_ self.

Definition deref {T : Type} (self : t T) : option T :=
  match value_ self with
  | nullptr => None
  | pointer_to v => Some v
  end.

Definition layout {T : Type} (self : t T) : Layout.t := layout_ self.

Definition make_has_layout {T : Type} (size_align_T : Z * Z) (val : pointer T)
    : outcome (option (t T)) :=
  create size_align_T val.

End HasLayout.

(** [HasLayout<T>] of the value-owning header: the value is moved into a
    [std::unique_ptr<T>]. *)
Module OwningHasLayout.

Record t (T : Type) : Type := mk { value_ : T; layout_ : Layout.t }.

Arguments mk {T} value_ layout_.
Arguments value_ {T} _.
Arguments layout_ {T} _.

Definition create {T : Type} (size_align_T : Z * Z) (val : T) : option (t T) :=
  match Layout.create size_align_T with
  | Some l => Some (mk val l)
  | None => None
  end.

Definition get {T : Type} (self : t T) : T := value_ self.

Definition layout {T : Type} (self : t T) : Layout.t := layout_ self.

Definition make_has_layout {T : Type} (size_align_T : Z * Z) (val : T)
    : option (t T) :=
  create size_align_T val.

End OwningHasLayout.

(** [SomeHasLayout] of the value-owning header: an untyped handle to a
    [HasLayout<T>] and a function that reads the layout through it. *)
Module SomeHasLayout.

Record t : Type := mk {
  erased : Type;
  has_layout : erased;
  layout_ : erased -> Layout.t
}.

(** [SomeHasLayout(HasLayout<T> &&h)] *)
Definition of_has_layout {T : Type} (h : OwningHasLayout.t T) : t :=
  mk (OwningHasLayout.t T) h (fun has_layout => OwningHasLayout.layout has_layout).

Definition layout (self : t) : Layout.t := layout_ self (has_layout self).

Definition make_some_has_layout {T : Type} (size_align_T : Z * Z) (val : T)
    : option t :=
  match OwningHasLayout.create size_align_T val with
  | Some v1 => Some (of_has_layout v1)
  | None => None
  end.

End SomeHasLayout.

(** ** Layouts a running program can hold

    [create<T>()] is only ever instantiated at a type, and the language
    makes [alignof(T)] a power of two; the arguments of the member
    functions are [size_t] values. *)




(** ** Facts about the size type *)

Section SizeTFacts.
Import SizeT.

Lemma modulus_eq : modulus = 18446744073709551616.
Proof. reflexivity. Qed.

Lemma MAX_SIZE_eq : MAX_SIZE = 18446744073709551615.
Proof. reflexivity. Qed.

Lemma wrap_small (z : Z) : in_range z -> wrap z = z.
Proof.
  unfold in_range, wrap. rewrite MAX_SIZE_eq, modulus_eq. intros Hz.
  apply Z.mod_small. lia.
Qed.

Lemma wrap_overflow (z : Z) :
  modulus <= z < 2 * modulus -> wrap z = z - modulus.
Proof.
  unfold wrap. rewrite modulus_eq. intros Hz.
  symmetry. apply (Z.mod_unique _ _ 1); lia.
Qed.

(** [x | y] lies between each operand and the sum. *)
Lemma lor_bounds (x y : Z) :
  0 <= x -> 0 <= y -> y <= Z.lor x y <= x + y.
Proof.
  intros Hx Hy. split.
  - pose proof (Z.sub_lor_l_same_r x y) as E.
    assert (0 <= Z.land x (Z.lnot y)) by (apply Z.land_nonneg; lia).
    lia.
  - pose proof (Z.add_lor_land x y) as E.
    assert (0 <= Z.land x y) by (apply Z.land_nonneg; lia).
    lia.
Qed.

(** A [size_t] value has no bit at position 64 or above. *)
Lemma testbit_in_range_high (x n : Z) :
  in_range x -> 64 <= n -> Z.testbit x n = false.
Proof.
  unfold in_range. rewrite MAX_SIZE_eq. intros Hx Hn.
  destruct (Z.eq_dec x 0) as [-> | Hnz]; [apply Z.bits_0 | ].
  apply Z.bits_above_log2; [lia | ].
  assert (Z.log2 x < 64) by (apply Z.log2_lt_pow2; simpl; lia).
  lia.
Qed.

End SizeTFacts.

(** ** [is_power_of_two] decides being a power of two *)

Section PowerOfTwo.
Import SizeT details Contract.

Lemma land_pred_pow2 (k : Z) : 0 <= k -> Z.land (2 ^ k) (2 ^ k - 1) = 0.
Proof.
  intros Hk.
  replace (2 ^ k - 1) with (Z.ones k) by (rewrite Z.ones_equiv; lia).
  rewrite Z.land_ones by assumption.
  apply Z.mod_same. apply Z.pow_nonzero; lia.
Qed.

Lemma land_pred_zero_pow2 (n : Z) :
  0 < n -> Z.land n (n - 1) = 0 -> n = 2 ^ Z.log2 n.
Proof.
  intros Hn Hland.
  destruct (Z.log2_spec n Hn) as [Hlo Hhi].
  destruct (Z.eq_dec n (2 ^ Z.log2 n)) as [E | NE]; [exact E | exfalso].
  assert (Hlog : Z.log2 (n - 1) = Z.log2 n).
  { apply Z.log2_unique; [apply Z.log2_nonneg | ].
    lia. }
  assert (Hb1 : Z.testbit n (Z.log2 n) = true) by (apply Z.bit_log2; lia).
  assert (Hb2 : Z.testbit (n - 1) (Z.log2 n) = true).
  { rewrite <- Hlog. apply Z.bit_log2.
    pose proof (Z.pow_pos_nonneg 2 (Z.log2 n) ltac:(lia) (Z.log2_nonneg n)).
    lia. }
  assert (Hb : Z.testbit (Z.land n (n - 1)) (Z.log2 n) = true)
    by (rewrite Z.land_spec, Hb1, Hb2; reflexivity).
  rewrite Hland, Z.bits_0 in Hb. discriminate.
Qed.

Lemma is_power_of_two_iff (n : Z) :
  in_range n -> (is_power_of_two n = true <-> is_pow2 n).
Proof.
  intros Hn. unfold is_power_of_two, band, sub.
  destruct (Z.eqb_spec n 0) as [-> | Hnz].
  - split; [discriminate | ].
    intros [k [Hk E]].
    pose proof (Z.pow_pos_nonneg 2 k ltac:(lia) Hk). lia.
  - assert (Hpos : 0 < n) by (unfold in_range in Hn; lia).
    rewrite wrap_small by (unfold in_range in *; lia).
    rewrite Z.eqb_eq. split.
    + intros H. exists (Z.log2 n). split; [apply Z.log2_nonneg | ].
      apply land_pred_zero_pow2; assumption.
    + intros [k [Hk ->]]. apply land_pred_pow2; assumption.
Qed.

Lemma invariants_power_of_two (l : Layout.t) :
  invariants l -> is_power_of_two (Layout.align l) = true.
Proof.
  intros (_ & Ha & _ & Hp & _). apply is_power_of_two_iff; assumption.
Qed.

End PowerOfTwo.

(** ** What the checked operations compute *)

Section CheckedArithmetic.
Import SizeT details.

(** The condition handed to [checked_op] by [checked_add] holds a value,
    hence counts as true, exactly when the raw sum is not below [x | y]. *)
Lemma checked_add_unfold (x y : Z) :
  checked_add x y =
  if add x y <? bor x y then Some (add x y) else None.
Proof.
  unfold checked_add, checked_op, to_bool, optional_ContextualBool.
  destruct (add x y <? bor x y); reflexivity.
Qed.

(** [checked_add] is empty exactly on the sums that fit, and holds the
    wrapped sum on the ones that do not. *)
Lemma checked_add_eq (x y : Z) :
  in_range x -> in_range y ->
  checked_add x y =
  if x + y <=? MAX_SIZE then None else Some (x + y - modulus).
Proof.
  intros Hx Hy. rewrite checked_add_unfold. unfold add, bor.
  pose proof (lor_bounds x y (proj1 Hx) (proj1 Hy)) as [Hlo Hhi].
  unfold in_range in Hx, Hy. unfold MAX_SIZE in *.
  destruct (Z.leb_spec (x + y) (modulus - 1)) as [Hfit | Hovf].
  - rewrite wrap_small by (unfold in_range, MAX_SIZE; lia).
    destruct (Z.ltb_spec (x + y) (Z.lor x y)); [lia | reflexivity].
  - rewrite wrap_overflow by lia.
    destruct (Z.ltb_spec (x + y - modulus) (Z.lor x y)); [reflexivity | lia].
Qed.

Lemma checked_add_None_iff (x y : Z) :
  in_range x -> in_range y ->
  (checked_add x y = None <-> x + y <= MAX_SIZE).
Proof.
  intros Hx Hy. rewrite (checked_add_eq x y Hx Hy).
  destruct (Z.leb_spec (x + y) MAX_SIZE); split;
    intros; try reflexivity; try discriminate; lia.
Qed.

Lemma bit_clear_range_low (x : Z) :
  in_range x -> bit_clear_range x 0 (sizeof / 2) = 16 * (x / 16).
Proof.
  intros Hr. assert (Hx : 0 <= x) by (apply Hr).
  unfold bit_clear_range, band, bnot, shl, shr.
  change (wrap (Z.lnot (wrap (Z.shiftl (Z.shiftr MAX_SIZE (bits - sizeof / 2)) 0))))
    with (Z.ldiff (Z.ones 64) (Z.ones 4)).
  apply Z.bits_inj'. intros n Hn.
  rewrite Z.land_spec, Z.ldiff_spec.
  replace (16 * (x / 16)) with (Z.shiftl (Z.shiftr x 4) 4)
    by (rewrite Z.shiftl_mul_pow2, Z.shiftr_div_pow2 by lia;
        change (2 ^ 4) with 16; lia).
  destruct (Z.lt_ge_cases n 4) as [Hlt | Hge].
  - rewrite Z.shiftl_spec_low by assumption.
    rewrite (Z.ones_spec_low 4) by lia.
    simpl negb. rewrite andb_false_r, andb_false_r. reflexivity.
  - rewrite Z.shiftl_spec by assumption.
    rewrite Z.shiftr_spec by lia.
    replace (n - 4 + 4) with n by lia.
    rewrite (Z.ones_spec_high 4) by lia.
    destruct (Z.lt_ge_cases n 64) as [Hlt' | Hge'].
    + rewrite (Z.ones_spec_low 64) by lia.
      simpl. rewrite andb_true_r. reflexivity.
    + rewrite (Z.ones_spec_high 64) by lia.
      simpl. rewrite andb_false_r.
      symmetry. apply testbit_in_range_high; assumption.
Qed.

(** The overflow condition of [checked_mul], with the shifts and the mask
    read as divisions by 16. *)
Lemma checked_mul_unfold (x y : Z) :
  in_range x -> in_range y ->
  checked_mul x y =
  let h := (x / 16) * (y / 16) in
  if wrap (wrap (wrap h + wrap (16 * h) / 16) + wrap (16 * h) / 16) =? 0
  then Some (wrap (x * y)) else None.
Proof.
  intros Hx Hy.
  unfold checked_mul, checked_op, to_bool, size_t_ContextualBool.
  cbv zeta.
  rewrite (bit_clear_range_low x Hx), (bit_clear_range_low y Hy).
  unfold add, mul, shr. change (sizeof / 2) with 4.
  rewrite !Z.shiftr_div_pow2 by lia. change (2 ^ 4) with 16.
  replace (x / 16 * (16 * (y / 16))) with (16 * (x / 16 * (y / 16))) by lia.
  replace (16 * (x / 16) * (y / 16)) with (16 * (x / 16 * (y / 16))) by lia.
  destruct (_ =? 0); reflexivity.
Qed.

(** No overflow is ever reported when an operand is below 16: the result
    is the truncated product. *)
Lemma checked_mul_small_l (x y : Z) :
  0 <= x < 16 -> in_range y -> checked_mul x y = Some (wrap (x * y)).
Proof.
  intros Hx Hy.
  rewrite checked_mul_unfold
    by (try assumption; unfold in_range; rewrite MAX_SIZE_eq; lia).
  rewrite (Z.div_small x 16) by assumption. reflexivity.
Qed.

Lemma checked_mul_small_r (x y : Z) :
  in_range x -> 0 <= y < 16 -> checked_mul x y = Some (wrap (x * y)).
Proof.
  intros Hx Hy.
  rewrite checked_mul_unfold
    by (try assumption; unfold in_range; rewrite MAX_SIZE_eq; lia).
  rewrite (Z.div_small y 16) by assumption.
  rewrite Z.mul_0_r. reflexivity.
Qed.

(** Every product of two operands of at least 16 that fits is rejected. *)
Lemma checked_mul_rejects_fitting (x y : Z) :
  16 <= x -> 16 <= y -> x * y <= MAX_SIZE -> checked_mul x y = None.
Proof.
  intros Hx Hy Hfit. rewrite MAX_SIZE_eq in Hfit.
  assert (Hxr : in_range x) by (unfold in_range; rewrite MAX_SIZE_eq; nia).
  assert (Hyr : in_range y) by (unfold in_range; rewrite MAX_SIZE_eq; nia).
  rewrite checked_mul_unfold by assumption. cbv zeta.
  pose proof (Z.mul_div_le x 16 ltac:(lia)) as Hxd.
  pose proof (Z.mul_div_le y 16 ltac:(lia)) as Hyd.
  assert (1 <= x / 16) by (apply Z.div_le_lower_bound; lia).
  assert (1 <= y / 16) by (apply Z.div_le_lower_bound; lia).
  set (h := x / 16 * (y / 16)).
  assert (Hh : 1 <= h /\ 256 * h <= 18446744073709551615) by (subst h; nia).
  rewrite (wrap_small h) by (unfold in_range; rewrite MAX_SIZE_eq; lia).
  rewrite (wrap_small (16 * h)) by (unfold in_range; rewrite MAX_SIZE_eq; lia).
  replace (16 * h / 16) with h by (rewrite Z.mul_comm, Z.div_mul; lia).
  rewrite (wrap_small (h + h)) by (unfold in_range; rewrite MAX_SIZE_eq; lia).
  rewrite (wrap_small (h + h + h)) by (unfold in_range; rewrite MAX_SIZE_eq; lia).
  destruct (Z.eqb_spec (h + h + h) 0); [lia | reflexivity].
Qed.

End CheckedArithmetic.

(** ** What the [Layout] operations compute *)

Section LayoutFacts.
Import SizeT details.

(** A layout returned by [from_size_align] carries the arguments, its
    alignment is not a power of two, and its size passes the range test. *)
Lemma from_size_align_Some (size align : Z) (l : Layout.t) :
  Layout.from_size_align size align = Some l ->
  l = Layout.mk size align /\
  is_power_of_two align = false /\
  size <= sub MAX_SIZE (sub align 1).
Proof.
  unfold Layout.from_size_align.
  destruct (is_power_of_two align) eqn:Hp.
  - destruct (Z.eqb_spec align 0) as [-> | Hnz]; [discriminate Hp | ].
    simpl. discriminate.
  - rewrite andb_false_r.
    destruct (Z.gtb_spec size (sub MAX_SIZE (sub align 1))); [discriminate | ].
    intros [= <-]. repeat split; try reflexivity. lia.
Qed.

(** [from_size_align] rejects every power-of-two alignment. *)
Lemma from_size_align_power_of_two (size align : Z) :
  is_power_of_two align = true -> Layout.from_size_align size align = None.
Proof.
  intros Hp. destruct (Layout.from_size_align size align) as [l | ] eqn:E;
    [ | reflexivity].
  apply from_size_align_Some in E. destruct E as (_ & Hn & _). congruence.
Qed.

(** Reducing modulo [sizeof(size_t)] forgets the wrap-around. *)
Lemma wrap_rem_sizeof (z : Z) : rem (wrap z) sizeof = z mod 8.
Proof.
  unfold rem, wrap. change sizeof with 8. rewrite modulus_eq.
  apply Z.mod_mod_divide.
  exists 2305843009213693952. reflexivity.
Qed.

Lemma wrap_add_eq (x y : Z) : wrap_add x y = (x + y) mod 8.
Proof. unfold wrap_add, wrap_op, add. apply wrap_rem_sizeof. Qed.

Lemma wrap_sub_eq (x y : Z) : wrap_sub x y = (x - y) mod 8.
Proof. unfold wrap_sub, wrap_op, sub. apply wrap_rem_sizeof. Qed.

(** [required_padding] with the wrapping helpers read as arithmetic
    modulo 8 and [!] as a test against zero. *)
Lemma required_padding_unfold (l : Layout.t) (align : Z) :
  Layout.required_padding l align =
  (Z.land ((Layout.size l + align - 1) mod 8)
          (if (align - 1) mod 8 =? 0 then 1 else 0)
   - Layout.size l) mod 8.
Proof.
  unfold Layout.required_padding. cbv zeta.
  rewrite !wrap_sub_eq, wrap_add_eq. unfold band, lnot.
  rewrite Zminus_mod_idemp_l. reflexivity.
Qed.

(** Unless [align] is congruent to 1 modulo 8, the padding brings the size
    to the next multiple of 8, whatever [align] is. *)
Lemma required_padding_mod8 (l : Layout.t) (align : Z) :
  (align - 1) mod 8 <> 0 ->
  Layout.required_padding l align = (- Layout.size l) mod 8.
Proof.
  intros Ha. rewrite required_padding_unfold.
  destruct (Z.eqb_spec ((align - 1) mod 8) 0); [contradiction | ].
  rewrite Z.land_0_r. reflexivity.
Qed.

Lemma pow2_pred_mod8 (align : Z) :
  Contract.is_pow2 align -> 2 <= align -> (align - 1) mod 8 <> 0.
Proof.
  intros [k [Hk ->]] H2.
  assert (k = 0 \/ k = 1 \/ k = 2 \/ 3 <= k) as [-> | [-> | [-> | Hk3]]]
    by lia; try (simpl in *; lia); try (vm_compute; discriminate).
  replace k with (3 + (k - 3)) by lia.
  rewrite Z.pow_add_r by lia. change (2 ^ 3) with 8.
  pose proof (Z.pow_pos_nonneg 2 (k - 3) ltac:(lia) ltac:(lia)) as Hpos.
  rewrite <- (Z.mod_unique (8 * 2 ^ (k - 3) - 1) 8 (2 ^ (k - 3) - 1) 7);
    lia.
Qed.

Lemma required_padding_pow2 (l : Layout.t) (align : Z) :
  Contract.is_pow2 align -> 2 <= align ->
  Layout.required_padding l align = (- Layout.size l) mod 8.
Proof.
  intros Hp H2. apply required_padding_mod8, pow2_pred_mod8; assumption.
Qed.

(** For the alignment 8 the result is the documented one. *)
Lemma required_padding_8_minimal (l : Layout.t) :
  Contract.is_min_padding (Layout.size l) 8 (Layout.required_padding l 8).
Proof.
  rewrite required_padding_mod8 by (vm_compute; discriminate).
  unfold Contract.is_min_padding. repeat split.
  - Z.div_mod_to_equations. lia.
  - Z.div_mod_to_equations. lia.
  - intros q Hq Hm. Z.div_mod_to_equations. lia.
Qed.

Lemma land_1_mod2 (r : Z) : Z.land r 1 = r mod 2.
Proof.
  replace (Z.land r 1) with (Z.land r (Z.ones 1)) by reflexivity.
  rewrite Z.land_ones by lia. reflexivity.
Qed.

(** A size already padded needs no further padding. *)
Lemma required_padding_after_pad (size align : Z) :
  Layout.required_padding
    (Layout.mk (add (Layout.required_padding (Layout.mk size align) align) size)
               align)
    align = 0.
Proof.
  rewrite !required_padding_unfold. unfold Layout.size, Layout.size_, add.
  assert (Hw : forall z, wrap z mod 8 = z mod 8)
    by (intros z; apply (wrap_rem_sizeof z)).
  destruct (Z.eqb_spec ((align - 1) mod 8) 0) as [Ha | Ha].
  - rewrite !land_1_mod2.
    set (pad := ((size + align - 1) mod 8 mod 2 - size) mod 8).
    assert (Hp : (pad + size) mod 8 = size mod 2)
      by (subst pad; Z.div_mod_to_equations; lia).
    rewrite <- (Hw (pad + size)) in Hp.
    generalize dependent (wrap (pad + size)). clear pad. intros w Hp.
    Z.div_mod_to_equations. lia.
  - rewrite !Z.land_0_r.
    set (pad := (0 - size) mod 8).
    assert (Hp : (pad + size) mod 8 = 0)
      by (subst pad; Z.div_mod_to_equations; lia).
    rewrite <- (Hw (pad + size)) in Hp.
    generalize dependent (wrap (pad + size)). clear pad. intros w Hp.
    Z.div_mod_to_equations. lia.
Qed.

(** Whenever [pad_to_align] returns, padding the result again returns the
    same layout. *)
Lemma pad_to_align_idempotent_when_returned (l l1 : Layout.t) :
  Layout.pad_to_align l = Returned l1 ->
  Layout.pad_to_align l1 = Returned l1.
Proof.
  destruct l as [size align]. unfold Layout.pad_to_align at 1.
  unfold Layout.size, Layout.align. simpl.
  destruct (Layout.from_size_align _ align) as [l' | ] eqn:F;
    simpl; [ | discriminate].
  intros [= ->].
  destruct (from_size_align_Some _ _ _ F) as (-> & _ & _).
  unfold Layout.pad_to_align, Layout.size, Layout.align. simpl.
  rewrite required_padding_after_pad.
  assert (Hid : forall z, add 0 (add z size) = add z size).
  { intros z. unfold add. rewrite Z.add_0_l. unfold wrap. apply Z.mod_mod.
    rewrite modulus_eq. lia. }
  rewrite Hid, F. reflexivity.
Qed.

(** The size test alone: for a non-zero alignment, a size above
    [MAX_SIZE - (align - 1)] is rejected. *)
Lemma from_size_align_size_too_large (size align : Z) :
  in_range align -> 1 <= align -> size > MAX_SIZE - (align - 1) ->
  Layout.from_size_align size align = None.
Proof.
  intros Ha H1 Hs. unfold Layout.from_size_align.
  destruct (negb (align =? 0) && is_power_of_two align); [reflexivity | ].
  unfold sub.
  rewrite (wrap_small (align - 1)) by (unfold in_range in *; lia).
  rewrite wrap_small by (unfold in_range in *; lia).
  destruct (Z.gtb_spec size (MAX_SIZE - (align - 1))); [reflexivity | lia].
Qed.

(** On a well-formed layout [pad_to_align] never returns. *)
Lemma pad_to_align_throws (l : Layout.t) :
  Contract.invariants l -> Layout.pad_to_align l = BadOptionalAccess.
Proof.
  intros Hinv. unfold Layout.pad_to_align.
  rewrite from_size_align_power_of_two
    by (apply invariants_power_of_two; assumption).
  reflexivity.
Qed.

(** On a well-formed layout [repeat] never yields a layout: it reports
    failure or does not return. *)
Lemma repeat_no_layout (l : Layout.t) (n : Z) :
  Contract.invariants l ->
  Layout.repeat l n = BadOptionalAccess \/ Layout.repeat l n = Returned None.
Proof.
  intros Hinv. unfold Layout.repeat. cbv zeta.
  destruct (checked_mul _ n); [left | right; reflexivity].
  rewrite from_size_align_power_of_two
    by (apply invariants_power_of_two; assumption).
  reflexivity.
Qed.

(** Extending a well-formed layout by a well-formed layout always fails. *)
Lemma extend_fails (self after : Layout.t) :
  Contract.invariants self -> Contract.invariants after ->
  Layout.extend self after = None.
Proof.
  intros Hs Ha. unfold Layout.extend. cbv zeta.
  assert (Hp : is_power_of_two
                 (Z.max (Layout.align self) (Layout.align after)) = true).
  { destruct (Z.max_spec (Layout.align self) (Layout.align after))
      as [[_ ->] | [_ ->]]; apply invariants_power_of_two; assumption. }
  destruct (checked_add (Layout.size self) _) as [offset | ];
    [ | reflexivity].
  destruct (checked_add offset (Layout.size after)) as [new_size | ];
    [ | reflexivity].
  rewrite from_size_align_power_of_two by assumption. reflexivity.
Qed.

End LayoutFacts.

Section Obtainable.
Import SizeT details.

(** Every layout a caller can hold is the default one or a result of
    [from_size_align]. *)
Lemma obtainable_origin (l : Layout.t) :
  obtainable l ->
  l = Layout.default \/
  exists size align, Layout.from_size_align size align = Some l.
Proof.
  intros Hob. destruct Hob as
    [ | [sz al] l E | self al l _ E | self l _ E | self n l stride _ E
      | self n l _ E | self after l offset _ _ E | self after l _ _ E ];
    [left; reflexivity | right ..].
  - exists sz, al. exact E.
  - eexists _, _. exact E.
  - unfold Layout.pad_to_align in E.
    destruct (Layout.from_size_align _ (Layout.align self)) as [l' | ] eqn:F;
      simpl in E; [ | discriminate].
    injection E as <-. eexists _, _. exact F.
  - unfold Layout.repeat in E. cbv zeta in E.
    destruct (checked_mul _ n) as [total | ]; [ | discriminate].
    destruct (Layout.from_size_align total (Layout.align self))
      as [l' | ] eqn:F; simpl in E; [ | discriminate].
    injection E as <- _. eexists _, _. exact F.
  - unfold Layout.repeat_packed in E.
    destruct (checked_mul (Layout.size self) n) as [total | ];
      [ | discriminate].
    destruct (Layout.from_size_align total (Layout.align self))
      as [l' | ] eqn:F; [ | discriminate].
    injection E as <-. eexists _, _. exact F.
  - unfold Layout.extend in E. cbv zeta in E.
    destruct (checked_add (Layout.size self) _) as [off | ];
      [ | discriminate].
    destruct (checked_add off (Layout.size after)) as [total | ];
      [ | discriminate].
    destruct (Layout.from_size_align total _) as [l' | ] eqn:F;
      [ | discriminate].
    injection E as <- _. eexists _, _. exact F.
  - unfold Layout.extend_packed in E.
    destruct (checked_add (Layout.size self) (Layout.size after))
      as [total | ]; [ | discriminate].
    eexists _, _. exact E.
Qed.

(** No layout a caller can hold has a power-of-two alignment. *)
Lemma obtainable_not_power_of_two (l : Layout.t) :
  obtainable l -> is_power_of_two (Layout.align l) = false.
Proof.
  intros Hob.
  destruct (obtainable_origin l Hob) as [-> | (size & align & E)].
  - reflexivity.
  - apply from_size_align_Some in E. destruct E as (-> & Hnp & _). exact Hnp.
Qed.

(** Every layout a caller can hold passes the size test of
    [from_size_align], with [align - 1] wrapping at [align = 0]. *)
Lemma obtainable_size_bound (l : Layout.t) :
  obtainable l ->
  Layout.size l <= sub MAX_SIZE (sub (Layout.align l) 1).
Proof.
  intros Hob.
  destruct (obtainable_origin l Hob) as [-> | (size & align & E)].
  - vm_compute. discriminate.
  - apply from_size_align_Some in E. destruct E as (-> & _ & Hb). exact Hb.
Qed.

(** Hence no obtainable layout is well-formed. *)
Lemma obtainable_not_invariants (l : Layout.t) :
  obtainable l -> ~ Contract.invariants l.
Proof.
  intros Hob Hinv.
  apply obtainable_not_power_of_two in Hob.
  apply invariants_power_of_two in Hinv. congruence.
Qed.

End Obtainable.

(** ** The documented properties, evaluated on the code *)

(** C1. [checked_add] is documented to be empty exactly when the sum does
    not fit.  On the code the sum [1 + 2] fits and the result is empty,
    while [MAX_SIZE + 1] does not fit and the result holds the wrapped sum
    [0]: the condition built by [checked_add] is an optional, which
    [checked_op] reads as true when it holds a value. *)
Theorem checked_add_inverted :
  details.checked_add 1 2 = None /\
  Contract.checked_add 1 2 = Some 3 /\
  details.checked_add SizeT.MAX_SIZE 1 = Some 0 /\
  Contract.checked_add SizeT.MAX_SIZE 1 = None.
Proof. repeat split; vm_compute; reflexivity. Qed.

(** C2. [from_size_align] is documented to reject an alignment that is zero
    or not a power of two.  On the code [from_size_align(0, 1)] fails
    although 1 is a power of two, and [from_size_align(0, 3)] returns the
    layout of size 0 and alignment 3 although 3 is not. *)
Theorem from_size_align_test_inverted :
  details.is_power_of_two 1 = true /\
  Layout.from_size_align 0 1 = None /\
  Contract.from_size_align 0 1 = Some (Layout.mk 0 1) /\
  details.is_power_of_two 3 = false /\
  Layout.from_size_align 0 3 = Some (Layout.mk 0 3) /\
  Contract.from_size_align 0 3 = None.
Proof. repeat split; vm_compute; reflexivity. Qed.

(** C3. Every obtainable layout is documented to have a positive
    power-of-two alignment.  The default-constructed layout is obtainable
    and has alignment 0, and raising its alignment to 3 with [align_to]
    yields an obtainable layout whose alignment is not a power of two. *)
Theorem obtainable_layouts_break_invariants :
  obtainable Layout.default /\
  Layout.align Layout.default = 0 /\
  ~ Contract.invariants Layout.default /\
  Layout.align_to Layout.default 3 = Some (Layout.mk 0 3) /\
  obtainable (Layout.mk 0 3) /\
  ~ Contract.invariants (Layout.mk 0 3).
Proof.
  assert (H3 : Layout.align_to Layout.default 3 = Some (Layout.mk 0 3))
    by (vm_compute; reflexivity).
  assert (Ob3 : obtainable (Layout.mk 0 3))
    by (exact (ob_align_to _ _ _ ob_default H3)).
  refine (conj ob_default (conj eq_refl (conj _ (conj H3 (conj Ob3 _))))).
  - apply obtainable_not_invariants, ob_default.
  - apply obtainable_not_invariants, Ob3.
Qed.

(** C4. [checked_mul] is documented to be empty exactly when the product
    does not fit and never to return a truncated value.  On the code
    [16 * 16] fits and the result is empty, while [2^63 * 2] does not fit
    and the result holds the truncated product [0]. *)
Theorem checked_mul_wrong_both_ways :
  details.checked_mul 16 16 = None /\
  Contract.checked_mul 16 16 = Some 256 /\
  details.checked_mul (2 ^ 63) 2 = Some 0 /\
  Contract.checked_mul (2 ^ 63) 2 = None.
Proof. repeat split; vm_compute; reflexivity. Qed.

(** C10. The public default constructor yields size 0 and alignment 0, so
    a caller obtains, without [from_size_align], a layout whose alignment
    is neither positive nor a power of two. *)
Theorem default_constructor_zero_align :
  Layout.size Layout.default = 0 /\
  Layout.align Layout.default = 0 /\
  obtainable Layout.default /\
  ~ 0 < Layout.align Layout.default /\
  details.is_power_of_two (Layout.align Layout.default) = false /\
  ~ Contract.is_pow2 (Layout.align Layout.default).
Proof.
  refine (conj eq_refl (conj eq_refl (conj ob_default
            (conj _ (conj eq_refl _))))).
  - simpl. lia.
  - intros [k [Hk E]]. simpl in E.
    pose proof (Z.pow_pos_nonneg 2 k ltac:(lia) Hk). lia.
Qed.

(** ** Further properties of the arithmetic utilities *)

Section BitRanges.
Import SizeT details.

Lemma testbit_wrap (z i : Z) :
  Z.testbit (wrap z) i = (i <? 64) && Z.testbit z i.
Proof.
  unfold wrap, modulus. change bits with 64.
  apply Z.testbit_mod_pow2. lia.
Qed.

(** The mask of [n] low ones, as both range functions build it. *)
Lemma mask_ones (n : Z) :
  0 < n <= 64 -> shr MAX_SIZE (bits - n) = Z.ones n.
Proof.
  intros Hn. unfold shr. change bits with 64.
  change MAX_SIZE with (Z.ones 64).
  rewrite Z.shiftr_div_pow2 by lia.
  rewrite Z.ones_div_pow2 by lia.
  f_equal. lia.
Qed.

Lemma testbit_shifted_mask (offset n i : Z) :
  0 <= offset -> 0 < n -> 0 <= i ->
  Z.testbit (shl (Z.ones n) offset) i =
  (offset <=? i) && (i <? offset + n) && (i <? 64).
Proof.
  intros Ho Hn Hi. unfold shl. rewrite testbit_wrap.
  rewrite Z.shiftl_spec by assumption.
  rewrite Z.testbit_ones by lia.
  destruct (Z.ltb_spec i 64), (Z.leb_spec offset i), (Z.leb_spec 0 (i - offset)),
    (Z.ltb_spec (i - offset) n), (Z.ltb_spec i (offset + n));
    simpl; try reflexivity; lia.
Qed.

Lemma bit_clear_range_testbit (value offset n i : Z) :
  in_range value -> 0 <= offset < 64 -> 0 < n <= 64 -> 0 <= i ->
  Z.testbit (bit_clear_range value offset n) i =
  Z.testbit value i && negb ((offset <=? i) && (i <? offset + n)).
Proof.
  intros Hv Ho Hn Hi. unfold bit_clear_range. cbv zeta.
  rewrite mask_ones by assumption. unfold band, bnot.
  rewrite Z.land_spec, testbit_wrap, Z.lnot_spec by assumption.
  rewrite testbit_shifted_mask by lia.
  destruct (Z.ltb_spec i 64) as [Hlt | Hge].
  - rewrite andb_true_r. reflexivity.
  - rewrite (testbit_in_range_high value i Hv Hge). reflexivity.
Qed.

Lemma bit_set_range_testbit (value offset n i : Z) :
  0 <= offset < 64 -> 0 < n <= 64 -> 0 <= i ->
  Z.testbit (bit_set_range value offset n) i =
  Z.testbit value i || ((offset <=? i) && (i <? offset + n) && (i <? 64)).
Proof.
  intros Ho Hn Hi. unfold bit_set_range. cbv zeta.
  rewrite mask_ones by assumption. unfold bor.
  rewrite Z.lor_spec, testbit_shifted_mask by lia. reflexivity.
Qed.

(** A non-negative integer with no bit at position 64 or above is a
    [size_t] value. *)
Lemma in_range_of_bits (z : Z) :
  0 <= z -> (forall i, 64 <= i -> Z.testbit z i = false) -> in_range z.
Proof.
  intros Hz Hbits. unfold in_range. rewrite MAX_SIZE_eq. split; [assumption | ].
  destruct (Z.eq_dec z 0) as [-> | Hnz]; [lia | ].
  assert (Hlog : Z.log2 z < 64).
  { destruct (Z.lt_ge_cases (Z.log2 z) 64) as [H | H]; [assumption | ].
    pose proof (Z.bit_log2 z ltac:(lia)) as Hb.
    rewrite (Hbits _ H) in Hb. discriminate. }
  apply Z.log2_lt_pow2 in Hlog; [ | lia].
  change (2 ^ 64) with 18446744073709551616 in Hlog. lia.
Qed.

Lemma bit_clear_range_in_range (value offset n : Z) :
  in_range value -> 0 <= offset < 64 -> 0 < n <= 64 ->
  in_range (bit_clear_range value offset n).
Proof.
  intros Hv Ho Hn. apply in_range_of_bits.
  - unfold bit_clear_range, band. apply Z.land_nonneg. left. apply Hv.
  - intros i Hi. rewrite bit_clear_range_testbit by (try assumption; lia).
    rewrite (testbit_in_range_high value i Hv Hi). reflexivity.
Qed.

Lemma bit_set_range_in_range (value offset n : Z) :
  in_range value -> 0 <= offset < 64 -> 0 < n <= 64 ->
  in_range (bit_set_range value offset n).
Proof.
  intros Hv Ho Hn. apply in_range_of_bits.
  - unfold bit_set_range, bor, shl, wrap. apply Z.lor_nonneg. split.
    + apply Hv.
    + apply Z.mod_pos_bound. reflexivity.
  - intros i Hi. rewrite bit_set_range_testbit by (try assumption; lia).
    rewrite (testbit_in_range_high value i Hv Hi).
    destruct (Z.ltb_spec i 64); [lia | ].
    rewrite andb_false_r. reflexivity.
Qed.

End BitRanges.

Ltac size_t_range :=
  unfold SizeT.in_range; rewrite ?MAX_SIZE_eq; simpl; lia.

Section BitRangeProperties.
Import SizeT details.

(** [x & y] does not exceed [x] on non-negative operands. *)
Lemma land_le_l (x y : Z) : 0 <= x -> 0 <= y -> Z.land x y <= x.
Proof.
  intros Hx Hy.
  pose proof (lor_bounds x y Hx Hy) as [Hlo _].
  pose proof (Z.add_lor_land x y). lia.
Qed.

(** X1. [bit_clear_range(value, offset, n)] on [size_t], for a shift
    [offset] below 64 and a width [n] between 1 and 64: the result is a
    [size_t] value whose bits are those of [value], except that every bit
    from [offset] up to [offset + n - 1] is 0. *)
Theorem bit_clear_range_bits (value offset n : Z) :
  in_range value -> 0 <= offset < 64 -> 0 < n <= 64 ->
  in_range (bit_clear_range value offset n) /\
  forall i, 0 <= i ->
    Z.testbit (bit_clear_range value offset n) i =
    Z.testbit value i && negb ((offset <=? i) && (i <? offset + n)).
Proof.
  intros Hv Ho Hn. split.
  - apply bit_clear_range_in_range; assumption.
  - intros i Hi. apply bit_clear_range_testbit; assumption.
Qed.

Lemma bit_clear_range_bits_witness :
  in_range (bit_clear_range 255 2 3) /\
  forall i, 0 <= i ->
    Z.testbit (bit_clear_range 255 2 3) i =
    Z.testbit 255 i && negb ((2 <=? i) && (i <? 2 + 3)).
Proof. apply (bit_clear_range_bits 255 2 3); size_t_range. Defined.

(** X2. [bit_set_range(value, offset, n)] on [size_t], under the same
    bounds: the result is a [size_t] value whose bits are those of [value],
    except that every bit from [offset] up to [offset + n - 1] that lies
    below position 64 is 1; the part of the range beyond bit 63 is dropped. *)
Theorem bit_set_range_bits (value offset n : Z) :
  in_range value -> 0 <= offset < 64 -> 0 < n <= 64 ->
  in_range (bit_set_range value offset n) /\
  forall i, 0 <= i ->
    Z.testbit (bit_set_range value offset n) i =
    Z.testbit value i || ((offset <=? i) && (i <? offset + n) && (i <? 64)).
Proof.
  intros Hv Ho Hn. split.
  - apply bit_set_range_in_range; assumption.
  - intros i Hi. apply bit_set_range_testbit; assumption.
Qed.

Lemma bit_set_range_bits_witness :
  in_range (bit_set_range 5 60 8) /\
  forall i, 0 <= i ->
    Z.testbit (bit_set_range 5 60 8) i =
    Z.testbit 5 i || ((60 <=? i) && (i <? 60 + 8) && (i <? 64)).
Proof. apply (bit_set_range_bits 5 60 8); size_t_range. Defined.

(** X3. Setting a range after clearing it gives the same as setting it
    directly, and clearing a range after setting it the same as clearing
    it directly: the two operations overwrite one another on the range and
    leave the other bits alone. *)
Theorem bit_set_clear_overwrite (value offset n : Z) :
  in_range value -> 0 <= offset < 64 -> 0 < n <= 64 ->
  bit_set_range (bit_clear_range value offset n) offset n =
    bit_set_range value offset n /\
  bit_clear_range (bit_set_range value offset n) offset n =
    bit_clear_range value offset n.
Proof.
  intros Hv Ho Hn. split; apply Z.bits_inj'; intros i Hi.
  - rewrite !bit_set_range_testbit, bit_clear_range_testbit by assumption.
    destruct (Z.ltb_spec i 64) as [Hlt | Hge].
    + destruct (Z.testbit value i), (offset <=? i), (i <? offset + n);
        reflexivity.
    + rewrite (testbit_in_range_high value i Hv Hge). reflexivity.
  - rewrite (bit_clear_range_testbit (bit_set_range value offset n))
      by (try assumption; apply bit_set_range_in_range; assumption).
    rewrite bit_set_range_testbit, bit_clear_range_testbit by assumption.
    destruct (Z.ltb_spec i 64) as [Hlt | Hge].
    + destruct (Z.testbit value i), (offset <=? i), (i <? offset + n);
        reflexivity.
    + rewrite (testbit_in_range_high value i Hv Hge).
      rewrite !andb_false_r. reflexivity.
Qed.

Lemma bit_set_clear_overwrite_witness :
  bit_set_range (bit_clear_range 255 2 3) 2 3 = bit_set_range 255 2 3 /\
  bit_clear_range (bit_set_range 255 2 3) 2 3 = bit_clear_range 255 2 3.
Proof. apply (bit_set_clear_overwrite 255 2 3); size_t_range. Defined.

(** X4. Clearing never increases and setting never decreases the value:
    [bit_clear_range(v, o, n) <= v <= bit_set_range(v, o, n)]. *)
Theorem bit_range_order (value offset n : Z) :
  in_range value -> 0 <= offset < 64 -> 0 < n <= 64 ->
  bit_clear_range value offset n <= value <= bit_set_range value offset n.
Proof.
  intros Hv Ho Hn. split.
  - unfold bit_clear_range, band, bnot, wrap. apply land_le_l; [apply Hv | ].
    apply Z.mod_pos_bound. reflexivity.
  - unfold bit_set_range, bor. rewrite Z.lor_comm.
    apply lor_bounds; [ | apply Hv].
    unfold shl, wrap. apply Z.mod_pos_bound. reflexivity.
Qed.

Lemma bit_range_order_witness :
  bit_clear_range 255 2 3 <= 255 <= bit_set_range 255 2 3.
Proof. apply (bit_range_order 255 2 3); size_t_range. Defined.

(** X5. Clearing the [n] low bits rounds the value down to a multiple of
    [2^n]: [bit_clear_range(v, 0, n) = 2^n * (v / 2^n)]. *)
Theorem bit_clear_range_low_bits (value n : Z) :
  in_range value -> 0 < n <= 64 ->
  bit_clear_range value 0 n = 2 ^ n * (value / 2 ^ n).
Proof.
  intros Hv Hn. apply Z.bits_inj'. intros i Hi.
  rewrite bit_clear_range_testbit by (try assumption; lia).
  replace (2 ^ n * (value / 2 ^ n)) with (Z.shiftl (Z.shiftr value n) n)
    by (rewrite Z.shiftl_mul_pow2, Z.shiftr_div_pow2 by lia; lia).
  destruct (Z.ltb_spec i (0 + n)) as [Hlt | Hge].
  - rewrite Z.shiftl_spec_low by lia.
    destruct (Z.leb_spec 0 i); [ | lia].
    apply andb_false_r.
  - rewrite Z.shiftl_spec, Z.shiftr_spec by lia.
    replace (i - n + n) with i by lia.
    rewrite andb_false_r. apply andb_true_r.
Qed.

Lemma bit_clear_range_low_bits_witness :
  bit_clear_range 1000 0 4 = 2 ^ 4 * (1000 / 2 ^ 4).
Proof. apply (bit_clear_range_low_bits 1000 4); size_t_range. Defined.

End BitRangeProperties.

Section CheckedProperties.
Import SizeT details.

(** X6. [wrap_add] and [wrap_sub] reduce modulo [sizeof(size_t)], not
    modulo the range of the type: [wrap_add(x, y)] is the machine sum
    modulo 8, which is [(x + y) mod 8], and [wrap_sub(x, y)] is the machine
    difference modulo 8, which is [(x - y) mod 8].  The result therefore
    lies below 8, and it equals the machine sum (difference) exactly when
    that is below 8. *)
Theorem wrap_add_sub_modulo_sizeof (x y : Z) :
  wrap_add x y = add x y mod 8 /\ wrap_add x y = (x + y) mod 8 /\
  wrap_sub x y = sub x y mod 8 /\ wrap_sub x y = (x - y) mod 8 /\
  0 <= wrap_add x y < 8 /\ 0 <= wrap_sub x y < 8 /\
  (wrap_add x y = add x y <-> add x y < 8) /\
  (wrap_sub x y = sub x y <-> sub x y < 8).
Proof.
  assert (Hmod : forall z, 0 <= wrap z mod 8 < 8)
    by (intros z; apply Z.mod_pos_bound; lia).
  assert (Hw : forall z, 0 <= wrap z)
    by (intros z; unfold wrap; apply Z.mod_pos_bound; reflexivity).
  assert (Hiff : forall z, wrap z mod 8 = wrap z <-> wrap z < 8).
  { intros z. split.
    - intros E. rewrite <- E. apply Hmod.
    - intros Hlt. apply Z.mod_small. split; [apply Hw | exact Hlt]. }
  split; [reflexivity | ]. split; [apply wrap_add_eq | ].
  split; [reflexivity | ]. split; [apply wrap_sub_eq | ].
  unfold wrap_add, wrap_sub, wrap_op, rem, add, sub. change sizeof with 8.
  repeat split; try apply Hmod; apply Hiff.
Qed.

(** X7. [checked_add] on [size_t] operands is empty exactly when the sum
    fits, and holds the wrapped sum [x + y - 2^64] when it does not; a
    returned value is therefore smaller than each operand. *)
Theorem checked_add_characterised (x y : Z) :
  in_range x -> in_range y ->
  (x + y <= MAX_SIZE -> checked_add x y = None) /\
  (MAX_SIZE < x + y -> checked_add x y = Some (x + y - modulus)) /\
  (forall r, checked_add x y = Some r -> r < x /\ r < y).
Proof.
  intros Hx Hy. rewrite (checked_add_eq x y Hx Hy).
  unfold in_range in Hx, Hy. rewrite MAX_SIZE_eq in *. rewrite modulus_eq.
  destruct (Z.leb_spec (x + y) 18446744073709551615) as [Hfit | Hovf].
  - repeat split; try reflexivity; try lia; discriminate.
  - split; [lia | ]. split; [reflexivity | ].
    intros r [= <-]. lia.
Qed.

Lemma checked_add_characterised_witness :
  (MAX_SIZE + 1 <= MAX_SIZE -> checked_add MAX_SIZE 1 = None) /\
  (MAX_SIZE < MAX_SIZE + 1 ->
   checked_add MAX_SIZE 1 = Some (MAX_SIZE + 1 - modulus)) /\
  (forall r, checked_add MAX_SIZE 1 = Some r -> r < MAX_SIZE /\ r < 1).
Proof. apply (checked_add_characterised MAX_SIZE 1); size_t_range. Defined.

(** X8. [checked_mul] never reports an overflow when one operand is below
    16: it returns the product reduced modulo 2^64, whether or not the
    product fits. *)
Theorem checked_mul_small_operand (x y : Z) :
  in_range x -> in_range y -> x < 16 \/ y < 16 ->
  checked_mul x y = Some (wrap (x * y)).
Proof.
  intros Hx Hy [Hs | Hs].
  - apply checked_mul_small_l; [ | assumption]. split; [apply Hx | exact Hs].
  - apply checked_mul_small_r; [assumption | ]. split; [apply Hy | exact Hs].
Qed.

Lemma checked_mul_small_operand_witness :
  checked_mul 3 (2 ^ 63) = Some (wrap (3 * 2 ^ 63)).
Proof.
  apply (checked_mul_small_operand 3 (2 ^ 63)); [size_t_range | size_t_range | ].
  left. lia.
Defined.

(** X9. [checked_mul] is empty for every pair of operands of at least 16
    whose product fits in [size_t]. *)
Theorem checked_mul_fitting_rejected (x y : Z) :
  16 <= x -> 16 <= y -> x * y <= MAX_SIZE -> checked_mul x y = None.
Proof. apply checked_mul_rejects_fitting. Qed.

Lemma checked_mul_fitting_rejected_witness : checked_mul 100 1000 = None.
Proof.
  apply (checked_mul_fitting_rejected 100 1000); try lia.
  rewrite MAX_SIZE_eq. lia.
Defined.

(** X10. [checked_mul] is commutative on [size_t] operands. *)
Theorem checked_mul_comm (x y : Z) :
  in_range x -> in_range y -> checked_mul x y = checked_mul y x.
Proof.
  intros Hx Hy. rewrite !checked_mul_unfold by assumption.
  rewrite (Z.mul_comm (y / 16)), (Z.mul_comm y). reflexivity.
Qed.

Lemma checked_mul_comm_witness : checked_mul 3 100 = checked_mul 100 3.
Proof. apply (checked_mul_comm 3 100); size_t_range. Defined.

(** X11. [is_power_of_two] decides, on [size_t] values, being a power of
    two: it is true exactly for [2^k] with [k >= 0]. *)
Theorem is_power_of_two_decides (n : Z) :
  in_range n -> (is_power_of_two n = true <-> Contract.is_pow2 n).
Proof. apply is_power_of_two_iff. Qed.

Lemma is_power_of_two_decides_witness :
  is_power_of_two 4096 = true <-> Contract.is_pow2 4096.
Proof. apply (is_power_of_two_decides 4096). size_t_range. Defined.

End CheckedProperties.

(** ** Further properties of [Layout] *)

Section LayoutProperties.
Import SizeT details.

(** The bound of the size test: [max - (align - 1)] with the subtraction
    wrapping at [align = 0]. *)
Lemma size_limit (align : Z) :
  in_range align ->
  sub MAX_SIZE (sub align 1) = if align =? 0 then 0 else MAX_SIZE - (align - 1).
Proof.
  intros Ha. destruct (Z.eqb_spec align 0) as [-> | Hnz].
  - vm_compute. reflexivity.
  - unfold sub. unfold in_range in Ha.
    rewrite (wrap_small (align - 1)) by (unfold in_range; lia).
    apply wrap_small. unfold in_range. lia.
Qed.

(** X12. [from_size_align] on [size_t] arguments returns either nothing or
    the layout made of its two arguments, and it returns the layout exactly
    when [align] is not a power of two, [size + align - 1] does not exceed
    the largest [size_t] value, and [size] is 0 if [align] is 0. *)
Theorem from_size_align_succeeds_iff (size align : Z) :
  in_range size -> in_range align ->
  (Layout.from_size_align size align = None \/
   Layout.from_size_align size align = Some (Layout.mk size align)) /\
  (Layout.from_size_align size align = Some (Layout.mk size align) <->
   ~ Contract.is_pow2 align /\ size + align - 1 <= MAX_SIZE /\
   (align = 0 -> size = 0)).
Proof.
  intros Hs Ha.
  pose proof (is_power_of_two_iff align Ha) as Hp.
  pose proof (size_limit align Ha) as Hl.
  unfold Layout.from_size_align. rewrite Hl.
  unfold in_range in Hs, Ha.
  destruct (is_power_of_two align) eqn:Hpow.
  - assert (Hnz : align <> 0) by (intros ->; discriminate Hpow).
    rewrite <- Z.eqb_neq in Hnz. rewrite Hnz. simpl.
    split; [left; reflexivity | ].
    split; [discriminate | ].
    intros (Hn & _). exfalso. apply Hn, Hp. reflexivity.
  - rewrite andb_false_r.
    assert (Hnp : ~ Contract.is_pow2 align)
      by (intros H; apply Hp in H; discriminate).
    destruct (Z.eqb_spec align 0) as [-> | Hnz].
    + destruct (Z.gtb_spec size 0).
      * split; [left; reflexivity | ]. split; [discriminate | ].
        intros (_ & _ & H0). specialize (H0 eq_refl). lia.
      * split; [right; reflexivity | ]. split; [ | reflexivity].
        intros _. repeat split; try assumption; lia.
    + destruct (Z.gtb_spec size (MAX_SIZE - (align - 1))).
      * split; [left; reflexivity | ]. split; [discriminate | ].
        intros (_ & Hb & _). lia.
      * split; [right; reflexivity | ]. split; [ | reflexivity].
        intros _. repeat split; try assumption; lia.
Qed.

Lemma from_size_align_succeeds_iff_witness :
  (Layout.from_size_align 10 6 = None \/
   Layout.from_size_align 10 6 = Some (Layout.mk 10 6)) /\
  (Layout.from_size_align 10 6 = Some (Layout.mk 10 6) <->
   ~ Contract.is_pow2 6 /\ 10 + 6 - 1 <= MAX_SIZE /\ (6 = 0 -> 10 = 0)).
Proof. apply (from_size_align_succeeds_iff 10 6); size_t_range. Defined.

(** X13. [create<T>()] returns nothing for every type whose alignment is a
    power of two, whatever its size. *)
Theorem create_fails_for_power_of_two_alignment (size align : Z) :
  is_power_of_two align = true -> Layout.create (size, align) = None.
Proof. intros Hp. apply from_size_align_power_of_two. exact Hp. Qed.

Lemma create_fails_for_power_of_two_alignment_witness :
  Layout.create (24, 8) = None.
Proof.
  apply (create_fails_for_power_of_two_alignment 24 8). reflexivity.
Defined.

(** X14. When [align_to] returns a layout, the size is unchanged, the
    alignment is the larger of the old one and the argument, and that
    alignment is not a power of two. *)
Theorem align_to_result (self : Layout.t) (align : Z) (l : Layout.t) :
  Layout.align_to self align = Some l ->
  Layout.size l = Layout.size self /\
  Layout.align l = Z.max (Layout.align self) align /\
  Layout.align self <= Layout.align l /\ align <= Layout.align l /\
  is_power_of_two (Layout.align l) = false.
Proof.
  unfold Layout.align_to. intros E.
  apply from_size_align_Some in E. destruct E as (-> & Hnp & _).
  unfold Layout.size, Layout.align in *. simpl.
  repeat split; try assumption; lia.
Qed.

Lemma align_to_result_witness :
  Layout.size (Layout.mk 0 3) = Layout.size Layout.default /\
  Layout.align (Layout.mk 0 3) = Z.max (Layout.align Layout.default) 3 /\
  Layout.align Layout.default <= Layout.align (Layout.mk 0 3) /\
  3 <= Layout.align (Layout.mk 0 3) /\
  is_power_of_two (Layout.align (Layout.mk 0 3)) = false.
Proof.
  apply (align_to_result Layout.default 3 (Layout.mk 0 3)). reflexivity.
Defined.

(** X15. [required_padding] always returns a value below 8, whatever the
    size and the alignment asked for. *)
Theorem required_padding_below_sizeof (self : Layout.t) (align : Z) :
  0 <= Layout.required_padding self align < 8.
Proof.
  rewrite required_padding_unfold. apply Z.mod_pos_bound. lia.
Qed.

(** X16. For a power-of-two alignment of at least 2, [required_padding]
    ignores the alignment: it returns [(- size) mod 8], the distance from
    [size] to the next multiple of 8. *)
Theorem required_padding_power_of_two (self : Layout.t) (align : Z) :
  Contract.is_pow2 align -> 2 <= align ->
  Layout.required_padding self align = (- Layout.size self) mod 8 /\
  (Layout.size self + Layout.required_padding self align) mod 8 = 0.
Proof.
  intros Hp H2. rewrite (required_padding_pow2 self align Hp H2).
  split; [reflexivity | ].
  Z.div_mod_to_equations. lia.
Qed.

Lemma required_padding_power_of_two_witness :
  Layout.required_padding (Layout.mk 1 4) 4 = (- Layout.size (Layout.mk 1 4)) mod 8 /\
  (Layout.size (Layout.mk 1 4) + Layout.required_padding (Layout.mk 1 4) 4) mod 8 = 0.
Proof.
  apply (required_padding_power_of_two (Layout.mk 1 4) 4); [ | lia].
  exists 2. split; [lia | reflexivity].
Defined.

(** X17. For the alignment 8, [required_padding] is the least non-negative
    padding that brings the size to a multiple of 8. *)
Theorem required_padding_align_8 (self : Layout.t) :
  Contract.is_min_padding (Layout.size self) 8
                          (Layout.required_padding self 8).
Proof. apply required_padding_8_minimal. Qed.

(** X18. For the alignment 1, where no padding is ever needed,
    [required_padding] returns 0 exactly when the size is congruent to 0
    or 1 modulo 8. *)
Theorem required_padding_align_1 (self : Layout.t) :
  Layout.required_padding self 1 = 0 <->
  Layout.size self mod 8 = 0 \/ Layout.size self mod 8 = 1.
Proof.
  rewrite required_padding_unfold. change ((1 - 1) mod 8 =? 0) with true.
  cbv iota. rewrite land_1_mod2.
  replace (Layout.size self + 1 - 1) with (Layout.size self) by lia.
  generalize (Layout.size self). intros s.
  split; intros H; Z.div_mod_to_equations; lia.
Qed.

End LayoutProperties.

Section CombinatorProperties.
Import SizeT details.

Lemma add_in_range (x y : Z) : in_range (add x y).
Proof.
  unfold in_range, add, wrap. rewrite MAX_SIZE_eq, modulus_eq.
  pose proof (Z.mod_pos_bound (x + y) 18446744073709551616). lia.
Qed.

(** Whatever a checked operation returns is the raw machine result. *)
Lemma checked_mul_Some (x y r : Z) :
  checked_mul x y = Some r -> r = mul x y.
Proof.
  unfold checked_mul, checked_op. cbv zeta.
  destruct (to_bool _); [discriminate | ]. intros [= <-]. reflexivity.
Qed.

Lemma required_padding_in_range (self : Layout.t) (align : Z) :
  in_range (Layout.required_padding self align).
Proof.
  pose proof (required_padding_unfold self align) as E.
  pose proof (Z.mod_pos_bound
                (Z.land ((Layout.size self + align - 1) mod 8)
                        (if (align - 1) mod 8 =? 0 then 1 else 0)
                 - Layout.size self) 8 ltac:(lia)) as Hb.
  rewrite <- E in Hb. unfold in_range. rewrite MAX_SIZE_eq. lia.
Qed.

Lemma required_padding_size_0 (align_ align : Z) :
  Layout.required_padding (Layout.mk 0 align_) align = 0.
Proof.
  rewrite required_padding_unfold. unfold Layout.size, Layout.size_.
  destruct (Z.eqb_spec ((align - 1) mod 8) 0) as [E | NE].
  - replace (0 + align - 1) with (align - 1) by lia. rewrite E. reflexivity.
  - rewrite Z.land_0_r. reflexivity.
Qed.

(** X19. On every layout that satisfies the documented invariants,
    [pad_to_align] raises [std::bad_optional_access] instead of
    returning. *)
Theorem pad_to_align_well_formed_throws (l : Layout.t) :
  Contract.invariants l -> Layout.pad_to_align l = BadOptionalAccess.
Proof. apply pad_to_align_throws. Qed.

Lemma pad_to_align_well_formed_throws_witness :
  Layout.pad_to_align (Layout.mk 8 8) = BadOptionalAccess.
Proof.
  apply (pad_to_align_well_formed_throws (Layout.mk 8 8)).
  unfold Contract.invariants, Layout.size, Layout.align. simpl.
  repeat split; try size_t_range.
  exists 3. split; [lia | reflexivity].
Defined.

(** X20. When [pad_to_align] returns a layout, that layout has the same
    alignment, needs no further padding, and padding it again returns it
    unchanged. *)
Theorem pad_to_align_fixpoint (l l1 : Layout.t) :
  Layout.pad_to_align l = Returned l1 ->
  Layout.align l1 = Layout.align l /\
  Layout.required_padding l1 (Layout.align l1) = 0 /\
  Layout.pad_to_align l1 = Returned l1.
Proof.
  intros E. split; [ | split].
  - unfold Layout.pad_to_align in E.
    destruct (Layout.from_size_align _ (Layout.align l)) as [l' | ] eqn:F;
      simpl in E; [ | discriminate].
    injection E as <-. apply from_size_align_Some in F.
    destruct F as (-> & _). reflexivity.
  - destruct l as [size align]. unfold Layout.pad_to_align in E.
    unfold Layout.size, Layout.align in E. simpl in E.
    destruct (Layout.from_size_align _ align) as [l' | ] eqn:F;
      simpl in E; [ | discriminate].
    injection E as <-. apply from_size_align_Some in F.
    destruct F as (-> & _). unfold Layout.align at 1. simpl.
    apply required_padding_after_pad.
  - apply (pad_to_align_idempotent_when_returned l l1 E).
Qed.

Lemma pad_to_align_fixpoint_witness :
  Layout.align (Layout.mk 8 3) = Layout.align (Layout.mk 1 3) /\
  Layout.required_padding (Layout.mk 8 3) (Layout.align (Layout.mk 8 3)) = 0 /\
  Layout.pad_to_align (Layout.mk 8 3) = Returned (Layout.mk 8 3).
Proof.
  apply (pad_to_align_fixpoint (Layout.mk 1 3) (Layout.mk 8 3)).
  vm_compute. reflexivity.
Defined.

(** X21. On every layout that satisfies the documented invariants,
    [repeat] never yields a layout: it reports failure or raises
    [std::bad_optional_access], and it raises whenever the count is below
    16, in particular for the counts 0 and 1. *)
Theorem repeat_well_formed (l : Layout.t) (n : Z) :
  Contract.invariants l ->
  (Layout.repeat l n = BadOptionalAccess \/ Layout.repeat l n = Returned None) /\
  (0 <= n < 16 -> Layout.repeat l n = BadOptionalAccess).
Proof.
  intros Hinv. split; [apply repeat_no_layout; assumption | ].
  intros Hn. unfold Layout.repeat. cbv zeta.
  rewrite checked_mul_small_r by (try assumption; apply add_in_range).
  rewrite from_size_align_power_of_two
    by (apply invariants_power_of_two; assumption).
  reflexivity.
Qed.

Lemma repeat_well_formed_witness :
  (Layout.repeat (Layout.mk 8 8) 3 = BadOptionalAccess \/
   Layout.repeat (Layout.mk 8 8) 3 = Returned None) /\
  (0 <= 3 < 16 -> Layout.repeat (Layout.mk 8 8) 3 = BadOptionalAccess).
Proof.
  apply (repeat_well_formed (Layout.mk 8 8) 3).
  unfold Contract.invariants, Layout.size, Layout.align. simpl.
  repeat split; try size_t_range.
  exists 3. split; [lia | reflexivity].
Defined.

(** X22. When [repeat] returns a pair, the stride is the size plus the
    padding computed by [required_padding], the layout keeps the alignment
    and has the machine product [stride * n] (reduced modulo 2^64) as its
    size, and the alignment is not a power of two. *)
Theorem repeat_result (self : Layout.t) (n : Z) (l : Layout.t) (stride : Z) :
  Layout.repeat self n = Returned (Some (l, stride)) ->
  stride = add (Layout.size self)
               (Layout.required_padding self (Layout.align self)) /\
  Layout.size l = mul stride n /\
  Layout.align l = Layout.align self /\
  is_power_of_two (Layout.align self) = false.
Proof.
  unfold Layout.repeat. cbv zeta.
  destruct (checked_mul _ n) as [total | ] eqn:M; [ | discriminate].
  destruct (Layout.from_size_align total (Layout.align self)) as [l' | ] eqn:F;
    simpl; [ | discriminate].
  intros [= <- <-].
  apply checked_mul_Some in M. apply from_size_align_Some in F.
  destruct F as (-> & Hnp & _).
  unfold Layout.size at 2, Layout.align at 4. simpl.
  repeat split; assumption.
Qed.

Lemma repeat_result_witness :
  8 = add (Layout.size (Layout.mk 1 3))
          (Layout.required_padding (Layout.mk 1 3) (Layout.align (Layout.mk 1 3))) /\
  Layout.size (Layout.mk 16 3) = mul 8 2 /\
  Layout.align (Layout.mk 16 3) = Layout.align (Layout.mk 1 3) /\
  is_power_of_two (Layout.align (Layout.mk 1 3)) = false.
Proof.
  apply (repeat_result (Layout.mk 1 3) 2 (Layout.mk 16 3) 8).
  vm_compute. reflexivity.
Defined.

End CombinatorProperties.

Section CompositionProperties.
Import SizeT details.

(** X23. [extend] fails for every pair of layouts that satisfy the
    documented invariants. *)
Theorem extend_well_formed_fails (self after : Layout.t) :
  Contract.invariants self -> Contract.invariants after ->
  Layout.extend self after = None.
Proof. apply extend_fails. Qed.

Lemma extend_well_formed_fails_witness :
  Layout.extend (Layout.mk 12 4) (Layout.mk 8 8) = None.
Proof.
  apply (extend_well_formed_fails (Layout.mk 12 4) (Layout.mk 8 8));
    unfold Contract.invariants, Layout.size, Layout.align; simpl;
    repeat split; try size_t_range.
  - exists 2. split; [lia | reflexivity].
  - exists 3. split; [lia | reflexivity].
Defined.

Lemma required_padding_bound (self : Layout.t) (align : Z) :
  0 <= Layout.required_padding self align < 8.
Proof. rewrite required_padding_unfold. apply Z.mod_pos_bound. lia. Qed.

(** X24. [extend] returns nothing on every pair of layouts that
    [from_size_align] itself accepts, whatever their sizes and alignments:
    either the first addition does not wrap and [checked_add] is empty, or
    it wraps to an offset so small that the second addition cannot wrap. *)
Theorem extend_accepted_fails (self after : Layout.t) :
  in_range (Layout.size self) -> in_range (Layout.align self) ->
  in_range (Layout.size after) -> in_range (Layout.align after) ->
  Layout.from_size_align (Layout.size self) (Layout.align self) = Some self ->
  Layout.from_size_align (Layout.size after) (Layout.align after) = Some after ->
  Layout.extend self after = None.
Proof.
  intros Hs1 Ha1 Hs2 Ha2 F1 F2.
  apply from_size_align_Some in F1. destruct F1 as (_ & Hnp1 & Hb1).
  apply from_size_align_Some in F2. destruct F2 as (_ & Hnp2 & Hb2).
  rewrite size_limit in Hb1, Hb2 by assumption.
  unfold Layout.extend. cbv zeta.
  set (new_align := Z.max (Layout.align self) (Layout.align after)).
  pose proof (required_padding_bound self new_align) as Hpad.
  pose proof (required_padding_in_range self new_align) as Hpr.
  rewrite (checked_add_eq _ _ Hs1 Hpr).
  destruct (Z.leb_spec (Layout.size self + Layout.required_padding self new_align)
                       MAX_SIZE) as [ | Hov1]; [reflexivity | ].
  assert (Hoff : in_range (Layout.size self
                           + Layout.required_padding self new_align - modulus)).
  { unfold in_range in *. rewrite MAX_SIZE_eq, modulus_eq in *. lia. }
  rewrite (checked_add_eq _ _ Hoff Hs2).
  assert (Hfit : Layout.size self + Layout.required_padding self new_align
                 - modulus + Layout.size after <= MAX_SIZE).
  { unfold in_range in *. rewrite MAX_SIZE_eq, modulus_eq in *.
    destruct (Z.eq_dec ((new_align - 1) mod 8) 0) as [E | NE].
    - assert (Hone : forall a, is_power_of_two a = false -> a <> 1)
        by (intros a H ->; discriminate H).
      assert (Hge : 9 <= new_align).
      { assert (new_align <> 1)
          by (unfold new_align;
              destruct (Z.max_spec (Layout.align self) (Layout.align after))
                as [[_ ->] | [_ ->]]; apply Hone; assumption).
        assert (0 <= new_align) by (unfold new_align; lia).
        Z.div_mod_to_equations. lia. }
      destruct (Z.eqb_spec (Layout.align self) 0),
               (Z.eqb_spec (Layout.align after) 0);
        unfold new_align in Hge; lia.
    - rewrite (required_padding_mod8 self new_align NE) in *.
      Z.div_mod_to_equations. lia. }
  destruct (Z.leb_spec (Layout.size self + Layout.required_padding self new_align
                        - modulus + Layout.size after) MAX_SIZE);
    [reflexivity | lia].
Qed.

Lemma extend_accepted_fails_witness :
  Layout.extend (Layout.mk 0 3) (Layout.mk 5 6) = None.
Proof.
  apply (extend_accepted_fails (Layout.mk 0 3) (Layout.mk 5 6));
    try size_t_range; vm_compute; reflexivity.
Defined.

(** X25. [extend_packed] succeeds only when the sum of the two sizes
    wraps around: the size of the result is the sum minus 2^64, below both
    sizes, and the alignment is that of the first layout. *)
Theorem extend_packed_result_wrapped (self after l : Layout.t) :
  in_range (Layout.size self) -> in_range (Layout.size after) ->
  Layout.extend_packed self after = Some l ->
  MAX_SIZE < Layout.size self + Layout.size after /\
  Layout.size l = Layout.size self + Layout.size after - modulus /\
  Layout.size l < Layout.size self /\ Layout.size l < Layout.size after /\
  Layout.align l = Layout.align self.
Proof.
  intros Hs Ha. unfold Layout.extend_packed.
  rewrite (checked_add_eq _ _ Hs Ha).
  destruct (Z.leb_spec (Layout.size self + Layout.size after) MAX_SIZE)
    as [ | Hov]; [discriminate | ].
  intros F. apply from_size_align_Some in F. destruct F as (-> & _).
  unfold Layout.size, Layout.align in *. simpl.
  unfold in_range in *. rewrite MAX_SIZE_eq, modulus_eq in *.
  split; [lia | ]. split; [lia | ]. split; [lia | ]. split; [lia | ].
  reflexivity.
Qed.

Lemma extend_packed_result_wrapped_witness :
  MAX_SIZE < Layout.size (Layout.mk MAX_SIZE 3) + Layout.size (Layout.mk 1 1) /\
  Layout.size (Layout.mk 0 3) =
    Layout.size (Layout.mk MAX_SIZE 3) + Layout.size (Layout.mk 1 1) - modulus /\
  Layout.size (Layout.mk 0 3) < Layout.size (Layout.mk MAX_SIZE 3) /\
  Layout.size (Layout.mk 0 3) < Layout.size (Layout.mk 1 1) /\
  Layout.align (Layout.mk 0 3) = Layout.align (Layout.mk MAX_SIZE 3).
Proof.
  apply (extend_packed_result_wrapped (Layout.mk MAX_SIZE 3) (Layout.mk 1 1)
                                      (Layout.mk 0 3));
    [size_t_range | size_t_range | vm_compute; reflexivity].
Defined.

(** X26. On a layout that satisfies the documented invariants,
    [repeat_packed] and [extend_packed] always fail, and so does [align_to]
    when its argument is a power of two or does not exceed the current
    alignment. *)
Theorem well_formed_combinators_fail (self after : Layout.t) (n align : Z) :
  Contract.invariants self ->
  Layout.repeat_packed self n = None /\
  Layout.extend_packed self after = None /\
  (is_power_of_two align = true \/ align <= Layout.align self ->
   Layout.align_to self align = None).
Proof.
  intros Hinv.
  pose proof (invariants_power_of_two self Hinv) as Hp.
  split; [ | split].
  - unfold Layout.repeat_packed.
    destruct (checked_mul (Layout.size self) n); [ | reflexivity].
    rewrite from_size_align_power_of_two by assumption. reflexivity.
  - unfold Layout.extend_packed.
    destruct (checked_add (Layout.size self) (Layout.size after));
      [ | reflexivity].
    apply from_size_align_power_of_two. assumption.
  - intros H. unfold Layout.align_to. apply from_size_align_power_of_two.
    destruct (Z.max_spec (Layout.align self) align) as [[Hlt ->] | [_ ->]];
      [ | assumption].
    destruct H as [H | H]; [assumption | lia].
Qed.

Lemma well_formed_combinators_fail_witness :
  Layout.repeat_packed (Layout.mk 8 8) 2 = None /\
  Layout.extend_packed (Layout.mk 8 8) (Layout.mk 1 1) = None /\
  (is_power_of_two 16 = true \/ 16 <= Layout.align (Layout.mk 8 8) ->
   Layout.align_to (Layout.mk 8 8) 16 = None).
Proof.
  apply (well_formed_combinators_fail (Layout.mk 8 8) (Layout.mk 1 1) 2 16).
  unfold Contract.invariants, Layout.size, Layout.align. simpl.
  repeat split; try size_t_range.
  exists 3. split; [lia | reflexivity].
Defined.

End CompositionProperties.

Section ReachableLayouts.
Import SizeT details.

(** X27. No layout that a caller can obtain through the public interface
    has a power-of-two alignment, and each passes the size test of
    [from_size_align]; none satisfies the documented invariants. *)
Theorem obtainable_layout_shape (l : Layout.t) :
  obtainable l ->
  is_power_of_two (Layout.align l) = false /\
  Layout.size l <= sub MAX_SIZE (sub (Layout.align l) 1) /\
  ~ Contract.invariants l.
Proof.
  intros Hob. split; [ | split].
  - apply obtainable_not_power_of_two. assumption.
  - apply obtainable_size_bound. assumption.
  - apply obtainable_not_invariants. assumption.
Qed.

Lemma obtainable_layout_shape_witness :
  is_power_of_two (Layout.align (Layout.mk 0 3)) = false /\
  Layout.size (Layout.mk 0 3) <= sub MAX_SIZE (sub (Layout.align (Layout.mk 0 3)) 1) /\
  ~ Contract.invariants (Layout.mk 0 3).
Proof.
  apply (obtainable_layout_shape (Layout.mk 0 3)).
  exact (ob_align_to Layout.default 3 (Layout.mk 0 3) ob_default eq_refl).
Defined.

(** X28. A layout of size 0, such as the default-constructed one, only
    leads to layouts of size 0: [align_to], [pad_to_align], [repeat] (with
    stride 0) and [repeat_packed] keep the size at 0, and [extend] and
    [extend_packed] fail when the other layout has size 0 too. *)
Theorem size_zero_closed (self after l : Layout.t) (n align stride : Z) :
  Layout.size self = 0 -> Layout.size after = 0 -> in_range n ->
  (Layout.align_to self align = Some l -> Layout.size l = 0) /\
  (Layout.pad_to_align self = Returned l -> Layout.size l = 0) /\
  (Layout.repeat self n = Returned (Some (l, stride)) ->
   Layout.size l = 0 /\ stride = 0) /\
  (Layout.repeat_packed self n = Some l -> Layout.size l = 0) /\
  Layout.extend self after = None /\
  Layout.extend_packed self after = None.
Proof.
  destruct self as [size align_]. destruct after as [size' align_'].
  unfold Layout.size. simpl. intros -> -> Hn.
  assert (H0 : in_range 0) by size_t_range.
  assert (Hm : checked_mul 0 n = Some 0).
  { rewrite checked_mul_small_l by (try assumption; lia). reflexivity. }
  assert (Hadd : checked_add 0 0 = None) by (vm_compute; reflexivity).
  assert (Ha0 : add 0 0 = 0) by reflexivity.
  split; [ | split; [ | split; [ | split; [ | split]]]].
  - unfold Layout.align_to. intros F. apply from_size_align_Some in F.
    destruct F as (-> & _). reflexivity.
  - unfold Layout.pad_to_align, Layout.size, Layout.align.
    cbn [Layout.size_ Layout.align_].
    rewrite required_padding_size_0.
    destruct (Layout.from_size_align (add 0 0) align_) as [l' | ] eqn:F;
      simpl; [ | discriminate].
    intros [= <-]. apply from_size_align_Some in F.
    destruct F as (-> & _). reflexivity.
  - unfold Layout.repeat, Layout.size, Layout.align.
    cbn [Layout.size_ Layout.align_].
    rewrite required_padding_size_0, Ha0, Hm.
    destruct (Layout.from_size_align 0 align_) as [l' | ] eqn:F;
      simpl; [ | discriminate].
    intros [= <- <-]. apply from_size_align_Some in F.
    destruct F as (-> & _). split; reflexivity.
  - unfold Layout.repeat_packed, Layout.size, Layout.align.
    cbn [Layout.size_ Layout.align_].
    rewrite Hm.
    destruct (Layout.from_size_align 0 align_) as [l' | ] eqn:F;
      [ | discriminate].
    intros [= <-]. apply from_size_align_Some in F.
    destruct F as (-> & _). reflexivity.
  - unfold Layout.extend, Layout.size, Layout.align.
    cbn [Layout.size_ Layout.align_].
    rewrite required_padding_size_0, Hadd. reflexivity.
  - unfold Layout.extend_packed, Layout.size.
    cbn [Layout.size_ Layout.align_].
    rewrite Hadd. reflexivity.
Qed.

Lemma size_zero_closed_witness :
  (Layout.align_to Layout.default 3 = Some (Layout.mk 0 3) ->
   Layout.size (Layout.mk 0 3) = 0) /\
  (Layout.pad_to_align Layout.default = Returned (Layout.mk 0 3) ->
   Layout.size (Layout.mk 0 3) = 0) /\
  (Layout.repeat Layout.default 5 = Returned (Some (Layout.mk 0 3, 0)) ->
   Layout.size (Layout.mk 0 3) = 0 /\ 0 = 0) /\
  (Layout.repeat_packed Layout.default 5 = Some (Layout.mk 0 3) ->
   Layout.size (Layout.mk 0 3) = 0) /\
  Layout.extend Layout.default Layout.default = None /\
  Layout.extend_packed Layout.default Layout.default = None.
Proof.
  apply (size_zero_closed Layout.default Layout.default (Layout.mk 0 3) 5 3 0);
    [reflexivity | reflexivity | size_t_range].
Defined.

End ReachableLayouts.

(** ** Properties of the wrappers *)

Section Wrappers.
Import details.

(** X29. [HasLayout<T>::create] of the pointer-holding headers returns
    nothing for a null pointer; for a non-null pointer to a type whose
    alignment is a power of two it raises [std::bad_optional_access]; and
    when it does return a wrapper, that wrapper dereferences to the value
    pointed to and carries the layout made of the type's size and
    alignment. *)
Theorem HasLayout_create_outcomes {T : Type}
    (size align : Z) (val : pointer T) :
  (val = nullptr ->
   HasLayout.create (size, align) val = Returned None) /\
  (val <> nullptr -> is_power_of_two align = true ->
   HasLayout.create (size, align) val = BadOptionalAccess) /\
  (forall h, HasLayout.create (size, align) val = Returned (Some h) ->
     HasLayout.ptr h = val /\
     (exists v, val = pointer_to v /\ HasLayout.deref h = Some v) /\
     HasLayout.layout h = Layout.mk size align).
Proof.
  split; [ | split].
  - intros ->. reflexivity.
  - intros Hnn Hp. destruct val as [ | v]; [contradiction | ].
    unfold HasLayout.create, HasLayout.construct.
    unfold Layout.create.
    rewrite (from_size_align_power_of_two size align Hp).
    reflexivity.
  - intros h. destruct val as [ | v]; [discriminate | ].
    unfold HasLayout.create, HasLayout.construct, Layout.create.
    destruct (Layout.from_size_align size align) as [l | ] eqn:F;
      simpl; [ | discriminate].
    intros [= <-]. apply from_size_align_Some in F. destruct F as (-> & _).
    split; [reflexivity | ]. split; [ | reflexivity].
    exists v. split; reflexivity.
Qed.

(** X30. In the value-owning header, [HasLayout<T>::create] and
    [make_some_has_layout] return nothing for a type whose alignment is a
    power of two; when they do return a wrapper, the typed one gives back
    the value it was built from, and both, the typed and the type-erased
    one, report the layout made of the type's size and alignment. *)
Theorem owning_wrappers_outcomes {T : Type} (size align : Z) (val : T) :
  (is_power_of_two align = true ->
   OwningHasLayout.create (size, align) val = None /\
   SomeHasLayout.make_some_has_layout (size, align) val = None) /\
  (forall h, OwningHasLayout.create (size, align) val = Some h ->
     OwningHasLayout.get h = val /\
     OwningHasLayout.layout h = Layout.mk size align) /\
  (forall s, SomeHasLayout.make_some_has_layout (size, align) val = Some s ->
     SomeHasLayout.layout s = Layout.mk size align).
Proof.
  unfold SomeHasLayout.make_some_has_layout, OwningHasLayout.create,
    Layout.create.
  split; [ | split].
  - intros Hp. rewrite (from_size_align_power_of_two size align Hp).
    split; reflexivity.
  - intros h.
    destruct (Layout.from_size_align size align) as [l | ] eqn:F;
      [ | discriminate].
    intros [= <-]. apply from_size_align_Some in F. destruct F as (-> & _).
    split; reflexivity.
  - intros s.
    destruct (Layout.from_size_align size align) as [l | ] eqn:F;
      [ | discriminate].
    intros [= <-]. apply from_size_align_Some in F. destruct F as (-> & _).
    reflexivity.
Qed.

End Wrappers.

(** ** The documented behaviour on the layouts a program can hold *)

Section Reachable.
Import SizeT details.










End Reachable.





